(** * Verification model of the chat coordinator of [src/server.js]

    The Express/Socket.IO server keeps two process-wide JavaScript [Map]s:
    [conversationHistory] (history key -> array of messages) and
    [activeConnections] (socket id -> connection object).  The arrays held by
    [conversationHistory] are shared by reference: a handler reads the array,
    pushes onto it in place, and only later [set]s the key.  We therefore model
    the arrays as cells of a small heap addressed by [loc], and the map as a
    map from keys to locations, so that the aliasing of the source is kept.

    Every [async] handler runs synchronously up to its single [await] (the
    provider call), so it is embedded as two functions: the part before the
    [await], which returns the provider request and a continuation, and the
    part after it, which consumes the provider's outcome. *)

From Stdlib Require Import ZArith Lia.
From stdpp Require Import base gmap strings list option.

Open Scope string_scope.

(** ** JavaScript values carried by request bodies and messages *)

Inductive jsval :=
| JUndefined
| JNull
| JBool (b : bool)
| JNum (z : Z)
| JStr (s : string).

(** JavaScript truthiness, as used by [!message]. *)
Definition truthy (v : jsval) : bool :=
  match v with
  | JUndefined | JNull => false
  | JBool b => b
  | JNum z => negb (Z.eqb z 0)
  | JStr s => negb (String.eqb s "")
  end.

(** Strings are the UTF-8 encoding of the JavaScript string's code points.
    [String.prototype.trim] strips, at both ends, every code point of the
    ECMAScript WhiteSpace and LineTerminator productions: TAB, VT, FF, SP,
    U+00A0, U+FEFF, the other Zs space separators (U+1680, U+2000-U+200A,
    U+202F, U+205F, U+3000) and LF, CR, U+2028, U+2029.  Their encodings: *)
Definition utf8 (bs : list nat) : string :=
  fold_right (fun b r => String (Ascii.ascii_of_nat b) r) EmptyString bs.

Definition js_ws_seqs : list string :=
  map utf8
    [[9]; [10]; [11]; [12]; [13]; [32];
     [194; 160];                                    (* U+00A0 *)
     [225; 154; 128];                               (* U+1680 *)
     [226; 128; 128]; [226; 128; 129]; [226; 128; 130]; [226; 128; 131];
     [226; 128; 132]; [226; 128; 133]; [226; 128; 134]; [226; 128; 135];
     [226; 128; 136]; [226; 128; 137]; [226; 128; 138]; (* U+2000-U+200A *)
     [226; 128; 168]; [226; 128; 169];              (* U+2028, U+2029 *)
     [226; 128; 175];                               (* U+202F *)
     [226; 129; 159];                               (* U+205F *)
     [227; 128; 128];                               (* U+3000 *)
     [239; 187; 191]].                              (* U+FEFF *)

(** [strip_prefix p s]: the rest of [s] after the prefix [p], if any. *)
Fixpoint strip_prefix (p s : string) : option string :=
  match p, s with
  | EmptyString, _ => Some s
  | String a p', String b s' =>
      if Ascii.eqb a b then strip_prefix p' s' else None
  | _, _ => None
  end.

Fixpoint strip_any (ps : list string) (s : string) : option string :=
  match ps with
  | [] => None
  | p :: ps' =>
      match strip_prefix p s with
      | Some r => Some r
      | None => strip_any ps' s
      end
  end.

(** Every encoding is non-empty, so [length s] rounds strip them all. *)
Fixpoint trim_start_with (ps : list string) (fuel : nat) (s : string)
    : string :=
  match fuel with
  | O => s
  | S f =>
      match strip_any ps s with
      | Some r => trim_start_with ps f r
      | None => s
      end
  end.

Fixpoint rev_str (s : string) : string :=
  match s with
  | EmptyString => EmptyString
  | String c r => String.append (rev_str r) (String c EmptyString)
  end.

Definition trim_start (s : string) : string :=
  trim_start_with js_ws_seqs (String.length s) s.

(** At the end, the reversed bytes are stripped of the reversed encodings;
    in valid UTF-8 a matching suffix starts at a lead byte, so it is a
    whole code point. *)
Definition trim_end (s : string) : string :=
  rev_str (trim_start_with (map rev_str js_ws_seqs) (String.length s)
             (rev_str s)).

Definition trim (s : string) : string := trim_end (trim_start s).

(** Outcome of [message.trim() === '']: [trim] is a method of strings only,
    on any other value the call throws a [TypeError]. *)
Definition trim_is_empty (v : jsval) : option bool :=
  match v with
  | JStr s => Some (String.eqb (trim s) "")
  | _ => None
  end.

(** ** Messages *)

Inductive Role := System | User | Assistant.

Record message := mkMessage { role : Role; content : jsval }.

(** ** The shared store *)

Definition loc := nat.

Record connection := mkConnection {
  socketId : string;
  connectedAt : Z;
  userId : option string;     (* [null] until identified *)
  username : option string    (* absent until identified *)
}.

Record state := mkState {
  conversationHistory : gmap string loc;
  heap : gmap loc (list message);
  next_loc : loc;
  activeConnections : gmap string connection
}.

Definition empty_state : state := mkState ∅ ∅ 0 ∅.

(** [`${userId}_${conversationId}`] *)
Definition historyKey (uid cid : string) : string := uid +:+ "_" +:+ cid.

(** The array stored at a location. *)
Definition arr (st : state) (l : loc) : list message :=
  default [] (heap st !! l).

(** [conversationHistory.get(historyKey) || []]: the stored array, or a
    freshly allocated empty one which is not entered in the map. *)
Definition get_or_create (st : state) (k : string) : loc * state :=
  match conversationHistory st !! k with
  | Some l => (l, st)
  | None =>
      let l := next_loc st in
      (l, mkState (conversationHistory st) (<[l := []]> (heap st)) (S l)
                  (activeConnections st))
  end.

(** [history.push(m)]: in-place append to the array at [l]. *)
Definition push (st : state) (l : loc) (m : message) : state :=
  mkState (conversationHistory st) (<[l := (arr st l ++ [m])%list]> (heap st))
          (next_loc st) (activeConnections st).

(** [conversationHistory.set(k, history)] *)
Definition map_set (st : state) (k : string) (l : loc) : state :=
  mkState (<[k := l]> (conversationHistory st)) (heap st) (next_loc st)
          (activeConnections st).

(** [conversationHistory.delete(k)] *)
Definition map_delete (st : state) (k : string) : state :=
  mkState (delete k (conversationHistory st)) (heap st) (next_loc st)
          (activeConnections st).

(** [conversationHistory.get(k) || []] read by the GET route. *)
Definition get_history (st : state) (k : string) : list message :=
  match conversationHistory st !! k with
  | Some l => arr st l
  | None => []
  end.

(** [array.slice(-n)] for [n > 0]: the last [n] elements. *)
Definition slice_last (n : nat) (xs : list message) : list message :=
  drop (length xs - n) xs.

(** ** The completion provider

    [openai.chat.completions.create(...)] followed by
    [completion.choices[0].message.content]: either a reply text, or a
    rejection carrying the SDK error's [code] ([undefined] as [None]). *)
Inductive provider_outcome :=
| Completed (text : string)
| Failed (code : option string).

(** ** [app.post('/api/chat')] *)

Record chat_request := mkChatRequest {
  req_message : jsval;
  req_conversationId : string;
  req_userId : string
}.

Inductive resp_body :=
| ChatReply (response : string) (conversationId : string) (timestamp : string)
| ErrorBody (error : string)
| HistoryBody (conversationId : string) (messages : list message)
              (messageCount : nat)
| NoticeBody (message : string).

Record response := mkResponse { status : Z; body : resp_body }.

Definition rest_system_prompt : string :=
  "You are a helpful, friendly, and knowledgeable AI assistant. You provide accurate, helpful responses while being conversational and engaging. You can discuss a wide range of topics including technology, science, literature, current events, and more. Always be respectful and professional.".

(** [===] on [error.code], which may be [undefined]. *)
Definition option_eqb {A} (eqb : A -> A -> bool) (x y : option A) : bool :=
  match x, y with
  | Some a, Some b => eqb a b
  | None, None => true
  | _, _ => false
  end.

(** The [catch] block: classification of the thrown error's [code]. *)
Definition chat_catch (code : option string) : response :=
  if option_eqb String.eqb code (Some "insufficient_quota") then
    mkResponse 429 (ErrorBody "API quota exceeded. Please try again later.")
  else if option_eqb String.eqb code (Some "rate_limit_exceeded") then
    mkResponse 429 (ErrorBody "Rate limit exceeded. Please wait a moment.")
  else mkResponse 500 (ErrorBody "Internal server error. Please try again.").

(** What the handler holds across its [await]. *)
Record chat_pending := mkChatPending {
  pend_key : string;
  pend_loc : loc;
  pend_conversationId : string
}.

(** The handler up to the [await]: either it has already answered, or it
    hands the provider its message list and suspends. *)
Inductive chat_stage :=
| Answered (r : response)
| Awaiting (provider_messages : list message) (p : chat_pending).

Definition chat_begin (st : state) (req : chat_request) : state * chat_stage :=
  let message := req_message req in
  if negb (truthy message) then
    (st, Answered (mkResponse 400 (ErrorBody "Message is required")))
  else
    match trim_is_empty message with
    | None => (st, Answered (chat_catch None))       (* TypeError from trim *)
    | Some true =>
        (st, Answered (mkResponse 400 (ErrorBody "Message is required")))
    | Some false =>
        let k := historyKey (req_userId req) (req_conversationId req) in
        let '(l, st1) := get_or_create st k in
        let st2 := push st1 l (mkMessage User message) in
        let messages :=
          mkMessage System (JStr rest_system_prompt)
            :: slice_last 10 (arr st2 l) in
        (st2, Awaiting messages (mkChatPending k l (req_conversationId req)))
    end.

(** The handler after the [await]; [now] is [new Date().toISOString()]. *)
Definition chat_finish (st : state) (p : chat_pending) (now : string)
    (o : provider_outcome) : state * response :=
  match o with
  | Completed aiResponse =>
      let st1 := push st (pend_loc p) (mkMessage Assistant (JStr aiResponse)) in
      let st2 := map_set st1 (pend_key p) (pend_loc p) in
      (st2, mkResponse 200 (ChatReply aiResponse (pend_conversationId p) now))
  | Failed code => (st, chat_catch code)
  end.

(** One request served without interleaving: the provider request it made
    (if any), the final store and the response. *)
Definition chat (st : state) (req : chat_request) (now : string)
    (o : provider_outcome) : option (list message) * state * response :=
  match chat_begin st req with
  | (st1, Answered r) => (None, st1, r)
  | (st1, Awaiting msgs p) =>
      let '(st2, r) := chat_finish st1 p now o in (Some msgs, st2, r)
  end.

(** [app.get('/api/conversations/:userId/:conversationId')] *)
Definition get_conversation (st : state) (uid cid : string) : response :=
  let history := get_history st (historyKey uid cid) in
  mkResponse 200 (HistoryBody cid history (length history)).

(** [app.delete('/api/conversations/:userId/:conversationId')] *)
Definition delete_conversation (st : state) (uid cid : string)
    : state * response :=
  (map_delete st (historyKey uid cid),
   mkResponse 200 (NoticeBody "Conversation cleared successfully")).

(** ** Socket.IO: the real-time channel *)

Inductive event :=
| NewMessage (message : jsval) (sender : string) (userId : option string)
             (username : option string) (timestamp : string)
             (conversationId : string)
| ErrorEvent (message : string)
| UserTyping (userId : option string) (username : option string)
             (isTyping : jsval).

(** [io.emit] reaches every connected socket; [socket.emit] only one. *)
Inductive emission :=
| Broadcast (ev : event)
| ToSocket (sid : string) (ev : event).

(** Payload of ['send-message']. *)
Record send_data := mkSendData {
  sd_message : jsval;
  sd_userId : string;
  sd_conversationId : string;
  sd_username : option string
}.

Definition rt_system_prompt : string :=
  "You are a helpful AI assistant in a real-time chat environment. Be concise but helpful.".

Record send_pending := mkSendPending {
  sp_key : string;
  sp_loc : loc;
  sp_conversationId : string;
  sp_socket : string
}.

(** [socket.on('send-message')] up to its [await]: the emissions made, the
    provider request and what is held across the [await]. *)
Definition send_begin (st : state) (sid : string) (data : send_data)
    (now : string) : state * list emission * list message * send_pending :=
  let message := sd_message data in
  let ev := NewMessage message "user" (Some (sd_userId data))
              (sd_username data) now (sd_conversationId data) in
  let k := historyKey (sd_userId data) (sd_conversationId data) in
  let '(l, st1) := get_or_create st k in
  let st2 := push st1 l (mkMessage User message) in
  let messages :=
    mkMessage System (JStr rt_system_prompt) :: slice_last 8 (arr st2 l) in
  (st2, [Broadcast ev], messages,
   mkSendPending k l (sd_conversationId data) sid).

(** The handler after the [await]. *)
Definition send_finish (st : state) (p : send_pending) (now : string)
    (o : provider_outcome) : state * list emission :=
  match o with
  | Completed aiResponse =>
      let st1 := push st (sp_loc p) (mkMessage Assistant (JStr aiResponse)) in
      let st2 := map_set st1 (sp_key p) (sp_loc p) in
      (st2, [Broadcast (NewMessage (JStr aiResponse) "ai" None None now
                                   (sp_conversationId p))])
  | Failed _ =>
      (st, [ToSocket (sp_socket p) (ErrorEvent "Failed to process message")])
  end.

(** One real-time message handled without interleaving. *)
Definition send_message (st : state) (sid : string) (data : send_data)
    (now : string) (o : provider_outcome)
    : state * list emission * list message :=
  let '(st1, em1, msgs, p) := send_begin st sid data now in
  let '(st2, em2) := send_finish st1 p now o in
  (st2, (em1 ++ em2)%list, msgs).

(** ** The Session Registry: [activeConnections] *)

(** Result of a synchronous handler: it returns, or throws. *)
Inductive outcome (A : Type) :=
| Ok (a : A)
| Throws (error : string).
Arguments Ok {A} a.
Arguments Throws {A} error.

Definition set_connections (st : state) (m : gmap string connection) : state :=
  mkState (conversationHistory st) (heap st) (next_loc st) m.

(** [io.on('connection')] *)
Definition connect (st : state) (sid : string) (now : Z) : state :=
  set_connections st
    (<[sid := mkConnection sid now None None]> (activeConnections st)).

(** [socket.on('disconnect')] *)
Definition disconnect (st : state) (sid : string) : state :=
  set_connections st (delete sid (activeConnections st)).

(** Payload of ['identify']: [userData.userId], [userData.username]. *)
Record identity := mkIdentity {
  id_userId : option string;
  id_username : option string
}.

(** [socket.on('identify')]; a missing payload ([None]) makes the property
    reads throw a [TypeError]. *)
Definition identify (st : state) (sid : string) (userData : option identity)
    : outcome state :=
  match activeConnections st !! sid with
  | Some c =>
      match userData with
      | None => Throws "TypeError"
      | Some u =>
          let c' := mkConnection (socketId c) (connectedAt c)
                      (id_userId u) (id_username u) in
          Ok (set_connections st (<[sid := c']> (activeConnections st)))
      end
  | None => Ok st
  end.

(** ** The event loop

    Requests to [POST /api/chat] are tasks; a task runs to its [await] when
    its request arrives, and resumes when its provider call settles.  Any
    order of arrivals and settlements is a schedule of the event loop. *)

Inductive loop_action :=
| Arrive (t : nat) (req : chat_request)
| Settle (t : nat) (o : provider_outcome).

Record loop := mkLoop {
  lp_state : state;
  lp_pending : gmap nat chat_pending;
  lp_sent : list (nat * list message);     (* provider requests, in order *)
  lp_replies : list (nat * response)
}.

Definition loop_step (now : string) (lp : loop) (a : loop_action) : loop :=
  match a with
  | Arrive t req =>
      match chat_begin (lp_state lp) req with
      | (st1, Answered r) =>
          mkLoop st1 (lp_pending lp) (lp_sent lp) (lp_replies lp ++ [(t, r)])
      | (st1, Awaiting msgs p) =>
          mkLoop st1 (<[t := p]> (lp_pending lp)) (lp_sent lp ++ [(t, msgs)])
                 (lp_replies lp)
      end
  | Settle t o =>
      match lp_pending lp !! t with
      | Some p =>
          let '(st1, r) := chat_finish (lp_state lp) p now o in
          mkLoop st1 (delete t (lp_pending lp)) (lp_sent lp)
                 (lp_replies lp ++ [(t, r)])
      | None => lp
      end
  end.

Definition run_loop (now : string) (st : state) (acts : list loop_action)
    : loop :=
  fold_left (loop_step now) acts (mkLoop st ∅ [] []).



(** The [sender] fields of the [new-message] events emitted. *)
Definition senders (em : list emission) : list string :=
  flat_map (fun e =>
    match e with
    | Broadcast (NewMessage _ snd _ _ _ _) | ToSocket _ (NewMessage _ snd _ _ _ _) =>
        [snd]
    | _ => []
    end) em.

(** ** Ownership of the history arrays across the event loop

    A location is owned by a key when the key is stored at it in
    [conversationHistory], or when a pending request on that key holds it
    across its [await]. *)
Definition owns (lp : loop) (k : string) (l : loc) : Prop :=
  conversationHistory (lp_state lp) !! k = Some l \/
  exists t p, lp_pending lp !! t = Some p /\ pend_key p = k /\ pend_loc p = l.

(** Every owned location has been allocated, and no location is owned by
    two keys. *)
Definition wf_loop (lp : loop) : Prop :=
  (forall k l, owns lp k l -> l < next_loc (lp_state lp)) /\
  (forall k1 k2 l, owns lp k1 l -> owns lp k2 l -> k1 = k2).

(** The conversation key an event-loop action works on. *)
Definition action_key (lp : loop) (a : loop_action) : option string :=
  match a with
  | Arrive _ req => Some (historyKey (req_userId req) (req_conversationId req))
  | Settle t _ => pend_key <$> lp_pending lp !! t
  end.

(** ** [app.get('/api/health')] *)

Record health := mkHealth {
  h_status : string;
  h_timestamp : string;
  h_activeConnections : nat;   (* [activeConnections.size] *)
  h_uptime : Z
}.

Definition health_check (st : state) (now : string) (uptime : Z) : health :=
  mkHealth "healthy" now (size (activeConnections st)) uptime.

(** ** [src/api/chat.js]: the serverless [handler] *)

Module ApiChat.

Local Open Scope Z_scope.












End ApiChat.

(** ** The React [App] component (unnamed source file [part_000]) *)

Module App.

Record app_state := mkAppState {
  messages : list message;
  input : string;
  isDarkMode : bool
}.



(** [onChange={(e) => setInput(e.target.value)}] *)
Definition onChange (value : string) (s : app_state) : app_state :=
  mkAppState (messages s) value (isDarkMode s).

End App.

(** * Properties *)

Open Scope list_scope.

(** ** Store lemmas *)

Lemma arr_push_same (st : state) (l : loc) (m : message) :
  arr (push st l m) l = arr st l ++ [m].
Proof. unfold arr, push; simpl. by rewrite lookup_insert_eq. Qed.

Lemma map_push (st : state) (l : loc) (m : message) :
  conversationHistory (push st l m) = conversationHistory st.
Proof. reflexivity. Qed.

Lemma get_or_create_spec (st : state) (k : string) :
  let '(l, st1) := get_or_create st k in
  conversationHistory st1 = conversationHistory st /\
  arr st1 l = get_history st k /\
  activeConnections st1 = activeConnections st.
Proof.
  unfold get_or_create, get_history.
  destruct (conversationHistory st !! k) as [l|] eqn:E; simpl.
  - auto.
  - unfold arr; simpl. by rewrite lookup_insert_eq.
Qed.

(** The history read after [map_set k l] is the array at [l]. *)
Lemma get_history_map_set (st : state) (k : string) (l : loc) :
  get_history (map_set st k l) k = arr st l.
Proof. unfold get_history, map_set; simpl. by rewrite lookup_insert_eq. Qed.

Lemma get_history_map_delete (st : state) (k : string) :
  get_history (map_delete st k) k = [].
Proof. unfold get_history, map_delete; simpl. by rewrite lookup_delete_eq. Qed.

Lemma trim_empty : trim "" = "".
Proof. reflexivity. Qed.

Lemma slice_last_suffix (n : nat) (xs : list message) :
  exists pre, pre ++ slice_last n xs = xs /\
              length (slice_last n xs) = Nat.min n (length xs).
Proof.
  unfold slice_last. exists (take (length xs - n) xs). split.
  - apply take_drop.
  - rewrite length_drop. lia.
Qed.

(** A message that passes the route's validation. *)
Definition valid_message (v : jsval) : Prop :=
  exists s, v = JStr s /\ trim s <> "".

(** The route up to its [await] on a valid message: the user turn is pushed
    onto the (possibly fresh) array, and the last ten entries are sent. *)
Lemma chat_begin_valid (st : state) (req : chat_request) :
  valid_message (req_message req) ->
  let k := historyKey (req_userId req) (req_conversationId req) in
  let '(l, st1) := get_or_create st k in
  let st2 := push st1 l (mkMessage User (req_message req)) in
  chat_begin st req =
    (st2, Awaiting (mkMessage System (JStr rest_system_prompt)
                      :: slice_last 10 (arr st2 l))
                   (mkChatPending k l (req_conversationId req))).
Proof.
  intros (s & Hs & Ht). unfold chat_begin. rewrite Hs.
  destruct (String.eqb s "") eqn:E.
  - apply String.eqb_eq in E. subst s. by destruct Ht.
  - simpl. rewrite E. simpl.
    destruct (String.eqb (trim s) "") eqn:E2.
    + apply String.eqb_eq in E2. by destruct Ht.
    + by destruct (get_or_create st _).
Qed.

(** After a valid request the history the provider sees is the earlier
    history with the user turn at its end. *)
Lemma chat_begin_history (st : state) (req : chat_request) :
  valid_message (req_message req) ->
  forall st2 msgs p, chat_begin st req = (st2, Awaiting msgs p) ->
  let k := historyKey (req_userId req) (req_conversationId req) in
  pend_key p = k /\
  arr st2 (pend_loc p) = get_history st k ++ [mkMessage User (req_message req)] /\
  msgs = mkMessage System (JStr rest_system_prompt)
           :: slice_last 10 (arr st2 (pend_loc p)) /\
  conversationHistory st2 = conversationHistory st /\
  (forall l, conversationHistory st !! k = Some l -> pend_loc p = l).
Proof.
  intros Hv st2 msgs p Hb. pose proof (chat_begin_valid st req Hv) as Hc.
  pose proof (get_or_create_spec st
    (historyKey (req_userId req) (req_conversationId req))) as Hg.
  simpl in *.
  destruct (get_or_create st _) as [l st1] eqn:Eg.
  rewrite Hb in Hc. injection Hc as Hst Hmsgs Hp. subst. simpl.
  destruct Hg as (Hm & Ha & _).
  split; [done|]. split; [by rewrite arr_push_same, Ha|].
  split; [done|]. split; [exact Hm|].
  intros l' Hl'. unfold get_or_create in Eg. rewrite Hl' in Eg.
  by injection Eg as -> _.
Qed.

(** ** C1: provider failure on the point-to-point path *)

(** C1 (as stated, refuted): on a key with no stored history, a failed
    provider call leaves the stored history empty, so it does not gain
    exactly one message: the fresh array holding the user turn is only
    entered in [conversationHistory] after a successful call. *)
Lemma C1_fresh_key_counterexample :
  let req := mkChatRequest (JStr "hi") "c1" "u1" in
  let k := historyKey "u1" "c1" in
  let '(_, st', _) := chat empty_state req "T" (Failed None) in
  length (get_history st' k) <> length (get_history empty_state k) + 1.
Proof. vm_compute. discriminate. Qed.

(** C1 (amended): when the provider call fails, no assistant turn is
    stored; if the key already had a stored history, the user turn stays
    appended to it (exactly one new message), and if it had none, none is
    created (the key still reads as empty).  The reply is the [catch]
    classification. *)
Theorem C1_failure_history (st : state) (req : chat_request) (now : string)
    (code : option string) :
  valid_message (req_message req) ->
  let k := historyKey (req_userId req) (req_conversationId req) in
  let '(_, st', r) := chat st req now (Failed code) in
  r = chat_catch code /\
  get_history st' k =
    match conversationHistory st !! k with
    | Some _ => get_history st k ++ [mkMessage User (req_message req)]
    | None => []
    end.
Proof.
  intros Hv. pose proof (chat_begin_valid st req Hv) as Hc. simpl in *.
  set (k := historyKey (req_userId req) (req_conversationId req)) in *.
  unfold chat. destruct (get_or_create st k) as [l st1] eqn:Eg.
  rewrite Hc. simpl. split; [done|].
  unfold get_or_create in Eg. unfold get_history at 1. simpl.
  destruct (conversationHistory st !! k) as [l0|] eqn:E.
  - injection Eg as <- <-. rewrite E, arr_push_same.
    unfold get_history. by rewrite E.
  - injection Eg as <- <-. simpl. by rewrite E.
Qed.

Lemma C1_witness :
  valid_message (JStr "hi") /\
  (let req := mkChatRequest (JStr "hi") "c1" "u1" in
   let k := historyKey (req_userId req) (req_conversationId req) in
   let '(_, st', r) := chat empty_state req "T" (Failed None) in
   r = chat_catch None /\
   get_history st' k =
     match conversationHistory empty_state !! k with
     | Some _ => get_history empty_state k ++ [mkMessage User (req_message req)]
     | None => []
     end).
Proof.
  split.
  - exists "hi". split; [reflexivity | discriminate].
  - apply (C1_failure_history empty_state (mkChatRequest (JStr "hi") "c1" "u1")
             "T" None).
    exists "hi". split; [reflexivity | discriminate].
Defined.

(** ** C2: the context window *)

(** C2: on both channels the provider receives one leading system message
    followed by the last [N] entries of the history (the earlier history
    with the new user turn at its end), in history order: [N = 10] for
    [POST /api/chat] and [N = 8] for ['send-message']. *)
Theorem C2_context_window :
  (forall (st : state) (req : chat_request),
     match chat_begin st req with
     | (st2, Awaiting msgs p) =>
         let hist := arr st2 (pend_loc p) in
         hist = get_history st (historyKey (req_userId req)
                                  (req_conversationId req))
                ++ [mkMessage User (req_message req)] /\
         exists tail pre,
           msgs = mkMessage System (JStr rest_system_prompt) :: tail /\
           pre ++ tail = hist /\ length tail = Nat.min 10 (length hist)
     | _ => True
     end) /\
  (forall (st : state) (sid : string) (data : send_data) (now : string),
     let '(st2, _, msgs, p) := send_begin st sid data now in
     let hist := arr st2 (sp_loc p) in
     hist = get_history st (historyKey (sd_userId data) (sd_conversationId data))
            ++ [mkMessage User (sd_message data)] /\
     exists tail pre,
       msgs = mkMessage System (JStr rt_system_prompt) :: tail /\
       pre ++ tail = hist /\ length tail = Nat.min 8 (length hist)).
Proof.
  split.
  - intros st req. unfold chat_begin.
    destruct (negb (truthy (req_message req))); [done|].
    destruct (trim_is_empty (req_message req)) as [[|]|]; [done| |done].
    pose proof (get_or_create_spec st
      (historyKey (req_userId req) (req_conversationId req))) as Hg.
    destruct (get_or_create st _) as [l st1]. simpl.
    destruct Hg as (_ & Ha & _). rewrite arr_push_same, Ha.
    split; [done|].
    destruct (slice_last_suffix 10 (get_history st
      (historyKey (req_userId req) (req_conversationId req))
      ++ [mkMessage User (req_message req)])) as (pre & H1 & H2).
    exists (slice_last 10 (get_history st
      (historyKey (req_userId req) (req_conversationId req))
      ++ [mkMessage User (req_message req)])), pre. auto.
  - intros st sid data now. unfold send_begin.
    pose proof (get_or_create_spec st
      (historyKey (sd_userId data) (sd_conversationId data))) as Hg.
    destruct (get_or_create st _) as [l st1]. simpl.
    destruct Hg as (_ & Ha & _). rewrite arr_push_same, Ha.
    split; [done|].
    destruct (slice_last_suffix 8 (get_history st
      (historyKey (sd_userId data) (sd_conversationId data))
      ++ [mkMessage User (sd_message data)])) as (pre & H1 & H2).
    exists (slice_last 8 (get_history st
      (historyKey (sd_userId data) (sd_conversationId data))
      ++ [mkMessage User (sd_message data)])), pre. auto.
Qed.

(** ** Shared lemmas on a whole request *)

Lemma chat_valid_unfold (st : state) (req : chat_request) (now : string)
    (o : provider_outcome) :
  valid_message (req_message req) ->
  let k := historyKey (req_userId req) (req_conversationId req) in
  let '(l, st1) := get_or_create st k in
  let st2 := push st1 l (mkMessage User (req_message req)) in
  let '(st3, r) := chat_finish st2 (mkChatPending k l (req_conversationId req))
                     now o in
  chat st req now o =
    (Some (mkMessage System (JStr rest_system_prompt)
             :: slice_last 10 (arr st2 l)), st3, r).
Proof.
  intros Hv. pose proof (chat_begin_valid st req Hv) as Hc. simpl in *.
  unfold chat. destruct (get_or_create st _) as [l st1].
  rewrite Hc. by destruct (chat_finish _ _ _ _).
Qed.

(** A successful exchange stores the user turn and then the reply at the
    end of the key's history. *)
Lemma chat_success_history (st : state) (req : chat_request) (now text : string) :
  valid_message (req_message req) ->
  let k := historyKey (req_userId req) (req_conversationId req) in
  let '(_, st', r) := chat st req now (Completed text) in
  r = mkResponse 200 (ChatReply text (req_conversationId req) now) /\
  get_history st' k =
    get_history st k ++ [mkMessage User (req_message req);
                         mkMessage Assistant (JStr text)].
Proof.
  intros Hv. pose proof (chat_valid_unfold st req now (Completed text) Hv) as Hc.
  pose proof (get_or_create_spec st
    (historyKey (req_userId req) (req_conversationId req))) as Hg.
  simpl in *. destruct (get_or_create st _) as [l st1].
  rewrite Hc. simpl. split; [done|].
  rewrite get_history_map_set, !arr_push_same.
  destruct Hg as (_ & -> & _). by rewrite <- app_assoc.
Qed.

Lemma chat_failed_response (st : state) (req : chat_request) (now : string)
    (code : option string) :
  valid_message (req_message req) ->
  (chat st req now (Failed code)).2 = chat_catch code.
Proof.
  intros Hv. pose proof (chat_valid_unfold st req now (Failed code) Hv) as Hc.
  simpl in *. destruct (get_or_create st _) as [l st1].
  by rewrite Hc.
Qed.

(** ** C3: the statuses of [POST /api/chat] *)

(** C3: an empty or missing message is answered with 400 (no provider call,
    store untouched); a provider failure classified [insufficient_quota] or
    [rate_limit_exceeded] with 429; any other provider failure with 500; a
    success with a body carrying the reply, the conversationId and the
    timestamp. *)
Theorem C3_chat_statuses :
  (forall (st : state) (req : chat_request) (now : string) (o : provider_outcome),
     req_message req = JStr "" \/ req_message req = JUndefined \/
     req_message req = JNull ->
     chat st req now o =
       (None, st, mkResponse 400 (ErrorBody "Message is required"))) /\
  (forall (st : state) (req : chat_request) (now : string) (code : option string),
     valid_message (req_message req) ->
     code = Some "insufficient_quota" \/ code = Some "rate_limit_exceeded" ->
     status (chat st req now (Failed code)).2 = 429%Z) /\
  (forall (st : state) (req : chat_request) (now : string) (code : option string),
     valid_message (req_message req) ->
     code <> Some "insufficient_quota" -> code <> Some "rate_limit_exceeded" ->
     status (chat st req now (Failed code)).2 = 500%Z) /\
  (forall (st : state) (req : chat_request) (now text : string),
     valid_message (req_message req) ->
     (chat st req now (Completed text)).2 =
       mkResponse 200 (ChatReply text (req_conversationId req) now)).
Proof.
  split; [|split; [|split]].
  - intros st req now o Hm. unfold chat, chat_begin.
    by destruct Hm as [-> | [-> | ->]].
  - intros st req now code Hv Hc. rewrite chat_failed_response by done.
    by destruct Hc as [-> | ->].
  - intros st req now code Hv H1 H2. rewrite chat_failed_response by done.
    unfold chat_catch. destruct code as [c|]; [|done]. simpl.
    destruct (String.eqb c "insufficient_quota") eqn:E1.
    { apply String.eqb_eq in E1. by subst. }
    destruct (String.eqb c "rate_limit_exceeded") eqn:E2.
    { apply String.eqb_eq in E2. by subst. }
    done.
  - intros st req now text Hv.
    pose proof (chat_success_history st req now text Hv) as H. simpl in H.
    destruct (chat st req now (Completed text)) as [[? ?] r]. by destruct H.
Qed.

Lemma C3_witness :
  (chat empty_state (mkChatRequest (JStr "") "c1" "u1") "T" (Completed "x") =
     (None, empty_state, mkResponse 400 (ErrorBody "Message is required"))) /\
  status (chat empty_state (mkChatRequest (JStr "hi") "c1" "u1") "T"
            (Failed (Some "rate_limit_exceeded"))).2 = 429%Z /\
  status (chat empty_state (mkChatRequest (JStr "hi") "c1" "u1") "T"
            (Failed None)).2 = 500%Z /\
  (chat empty_state (mkChatRequest (JStr "hi") "c1" "u1") "T"
     (Completed "hello")).2 = mkResponse 200 (ChatReply "hello" "c1" "T").
Proof.
  destruct C3_chat_statuses as (Ha & Hb & Hc & Hd).
  split; [|split; [|split]].
  - apply Ha. left. reflexivity.
  - apply Hb; [exists "hi"; split; [reflexivity | discriminate] | right; reflexivity].
  - apply Hc; [exists "hi"; split; [reflexivity | discriminate]
             | discriminate | discriminate].
  - apply Hd. exists "hi". split; [reflexivity | discriminate].
Defined.

(** ** C10: white-space-only messages *)

(** C10: a string message whose trimmed content is empty is answered with
    400 before the store is touched or the provider is called. *)
Theorem C10_blank_message_rejected (st : state) (req : chat_request)
    (now : string) (o : provider_outcome) (s : string) :
  req_message req = JStr s -> trim s = "" ->
  chat st req now o =
    (None, st, mkResponse 400 (ErrorBody "Message is required")).
Proof.
  intros Hm Ht. unfold chat, chat_begin. rewrite Hm. simpl.
  destruct (String.eqb s "") eqn:E; [done|]. simpl.
  by rewrite Ht.
Qed.

Lemma C10_witness :
  (trim " 	 " = "" /\
   chat empty_state (mkChatRequest (JStr " 	 ") "c1" "u1") "T"
        (Completed "x") =
     (None, empty_state, mkResponse 400 (ErrorBody "Message is required"))) /\
  (* U+00A0, U+3000 and U+FEFF *)
  (trim (utf8 [194; 160; 227; 128; 128; 239; 187; 191]) = "" /\
   chat empty_state
        (mkChatRequest (JStr (utf8 [194; 160; 227; 128; 128; 239; 187; 191]))
                       "c1" "u1") "T" (Completed "x") =
     (None, empty_state, mkResponse 400 (ErrorBody "Message is required"))).
Proof.
  split; (split; [reflexivity|]).
  - apply (C10_blank_message_rejected empty_state
             (mkChatRequest (JStr " 	 ") "c1" "u1") "T" (Completed "x") " 	 ");
      reflexivity.
  - apply (C10_blank_message_rejected empty_state
             (mkChatRequest (JStr (utf8 [194; 160; 227; 128; 128; 239; 187; 191]))
                            "c1" "u1") "T" (Completed "x")
             (utf8 [194; 160; 227; 128; 128; 239; 187; 191]));
      reflexivity.
Defined.

(** ** C6: append, then read *)

(** C6: for every key, a successful exchange on a valid message leaves the
    earlier history followed by the user turn and then the reply, and the
    GET route returns exactly that list with its length; on a fresh key
    after "hi" answered by "hello" it returns those two messages and
    [messageCount = 2]. *)
Theorem C6_append_then_get :
  (forall (st : state) (req : chat_request) (now text : string),
     valid_message (req_message req) ->
     let k := historyKey (req_userId req) (req_conversationId req) in
     let '(_, st', _) := chat st req now (Completed text) in
     let h := get_history st k ++ [mkMessage User (req_message req);
                                   mkMessage Assistant (JStr text)] in
     get_history st' k = h /\
     get_conversation st' (req_userId req) (req_conversationId req) =
       mkResponse 200 (HistoryBody (req_conversationId req) h (length h))) /\
  (let '(_, st', _) := chat empty_state (mkChatRequest (JStr "hi") "c1" "u1")
                            "T" (Completed "hello") in
   get_conversation st' "u1" "c1" =
     mkResponse 200 (HistoryBody "c1" [mkMessage User (JStr "hi");
                                       mkMessage Assistant (JStr "hello")] 2)).
Proof.
  split.
  - intros st req now text Hv.
    pose proof (chat_success_history st req now text Hv) as H. simpl in *.
    destruct (chat st req now (Completed text)) as [[? st'] r].
    destruct H as [_ H]. split; [done|]. unfold get_conversation. by rewrite H.
  - reflexivity.
Qed.

Lemma C6_witness :
  let req := mkChatRequest (JStr "hi") "c1" "u1" in
  let k := historyKey (req_userId req) (req_conversationId req) in
  let '(_, st', _) := chat empty_state req "T" (Completed "hello") in
  let h := get_history empty_state k ++ [mkMessage User (req_message req);
                                         mkMessage Assistant (JStr "hello")] in
  get_history st' k = h /\
  get_conversation st' (req_userId req) (req_conversationId req) =
    mkResponse 200 (HistoryBody (req_conversationId req) h (length h)).
Proof.
  apply (proj1 C6_append_then_get empty_state (mkChatRequest (JStr "hi") "c1" "u1")
           "T" "hello").
  exists "hi". split; [reflexivity | discriminate].
Defined.

(** ** C7: clearing a conversation *)

Lemma map_delete_absent (st : state) (k : string) :
  conversationHistory st !! k = None -> map_delete st k = st.
Proof.
  intros H. destruct st as [ch hp nl ac]. unfold map_delete. simpl in *.
  by rewrite delete_id.
Qed.

(** C7: DELETE always answers 200; afterwards the key reads as empty (the
    GET route returns no messages and [messageCount = 0]); on a key with no
    stored history it changes nothing; and the next successful exchange on
    the key starts a fresh history holding only its two turns. *)
Theorem C7_clear_conversation :
  forall (st : state) (uid cid : string),
  let k := historyKey uid cid in
  let '(st', r) := delete_conversation st uid cid in
  r = mkResponse 200 (NoticeBody "Conversation cleared successfully") /\
  get_history st' k = [] /\
  get_conversation st' uid cid = mkResponse 200 (HistoryBody cid [] 0) /\
  (conversationHistory st !! k = None -> st' = st) /\
  (forall (m : jsval) (now text : string),
     valid_message m ->
     let '(_, st'', _) := chat st' (mkChatRequest m cid uid) now (Completed text) in
     get_history st'' k = [mkMessage User m; mkMessage Assistant (JStr text)]).
Proof.
  intros st uid cid. simpl.
  split; [done|]. split; [apply get_history_map_delete|].
  split; [unfold get_conversation; by rewrite get_history_map_delete|].
  split; [apply map_delete_absent|].
  intros m now text Hv.
  pose proof (chat_success_history (map_delete st (historyKey uid cid))
                (mkChatRequest m cid uid) now text Hv) as H. simpl in H.
  destruct (chat _ _ _ _) as [[? st''] r].
  destruct H as [_ ->]. by rewrite get_history_map_delete.
Qed.

(** ** C8: identification *)

(** C8: [identify] on a socket id absent from [activeConnections] returns
    normally and changes nothing; on a present one it binds [userId] and
    [username] to that connection and keeps the set of connection ids and
    every other connection. *)
Theorem C8_identify :
  (forall (st : state) (sid : string) (ud : option identity),
     activeConnections st !! sid = None -> identify st sid ud = Ok st) /\
  (forall (st : state) (sid : string) (c : connection) (u : identity),
     activeConnections st !! sid = Some c ->
     exists st',
       identify st sid (Some u) = Ok st' /\
       activeConnections st' !! sid =
         Some (mkConnection (socketId c) (connectedAt c)
                 (id_userId u) (id_username u)) /\
       dom (activeConnections st') = dom (activeConnections st) /\
       (forall sid', sid' <> sid ->
          activeConnections st' !! sid' = activeConnections st !! sid') /\
       conversationHistory st' = conversationHistory st /\
       heap st' = heap st).
Proof.
  split.
  - intros st sid ud H. unfold identify. by rewrite H.
  - intros st sid c u H. unfold identify. rewrite H. eexists. split; [done|].
    simpl. split; [by rewrite lookup_insert_eq|].
    split.
    { rewrite dom_insert_L. apply elem_of_dom_2 in H. set_solver. }
    split; [intros sid' Hne; by rewrite lookup_insert_ne|]. done.
Qed.

Lemma C8_witness :
  let st := disconnect (connect empty_state "s1" 0) "s1" in
  let st0 := connect empty_state "s1" 0 in
  (activeConnections st !! "s1" = None /\
   identify st "s1" (Some (mkIdentity (Some "u1") (Some "ann"))) = Ok st) /\
  (activeConnections st0 !! "s1" = Some (mkConnection "s1" 0 None None) /\
   exists st',
     identify st0 "s1" (Some (mkIdentity (Some "u1") (Some "ann"))) = Ok st' /\
     activeConnections st' !! "s1" =
       Some (mkConnection "s1" 0 (Some "u1") (Some "ann")) /\
     dom (activeConnections st') = dom (activeConnections st0) /\
     (forall sid', sid' <> "s1" ->
        activeConnections st' !! sid' = activeConnections st0 !! sid') /\
     conversationHistory st' = conversationHistory st0 /\
     heap st' = heap st0).
Proof.
  split; split; [reflexivity| |reflexivity|].
  - apply (proj1 C8_identify). reflexivity.
  - apply (proj2 C8_identify _ "s1" (mkConnection "s1" 0 None None)).
    reflexivity.
Defined.

Lemma C7_witness :
  let st := (chat empty_state (mkChatRequest (JStr "hi") "c1" "u1") "T"
               (Completed "hello")).1.2 in
  let k := historyKey "u1" "c1" in
  let '(st', r) := delete_conversation st "u1" "c1" in
  r = mkResponse 200 (NoticeBody "Conversation cleared successfully") /\
  get_history st' k = [] /\
  get_conversation st' "u1" "c1" = mkResponse 200 (HistoryBody "c1" [] 0) /\
  (conversationHistory st !! k = None -> st' = st) /\
  (forall (m : jsval) (now text : string),
     valid_message m ->
     let '(_, st'', _) := chat st' (mkChatRequest m "c1" "u1") now (Completed text) in
     get_history st'' k = [mkMessage User m; mkMessage Assistant (JStr text)]).
Proof. exact (C7_clear_conversation _ "u1" "c1"). Defined.

(** ** C4: validation on the real-time path *)

(** C4 (code bug): ['send-message'] has no validation step, unlike
    [POST /api/chat]: an empty message is broadcast to every client as a
    user message, appended to the history, and sent to the provider; after
    a reply it is stored with the assistant turn. *)
Theorem C4_empty_message_processed (st : state) (sid uid cid now : string)
    (uname : option string) :
  let data := mkSendData (JStr "") uid cid uname in
  let k := historyKey uid cid in
  let '(st1, em, msgs, p) := send_begin st sid data now in
  em = [Broadcast (NewMessage (JStr "") "user" (Some uid) uname now cid)] /\
  arr st1 (sp_loc p) = get_history st k ++ [mkMessage User (JStr "")] /\
  (exists pre, msgs = pre ++ [mkMessage User (JStr "")]) /\
  (forall text : string,
     get_history (send_finish st1 p now (Completed text)).1 k =
       get_history st k ++ [mkMessage User (JStr "");
                            mkMessage Assistant (JStr text)]).
Proof.
  simpl. unfold send_begin.
  pose proof (get_or_create_spec st (historyKey uid cid)) as Hg.
  destruct (get_or_create st _) as [l st1]. simpl.
  destruct Hg as (_ & Ha & _).
  split; [done|]. split; [by rewrite arr_push_same, Ha|].
  split.
  - rewrite arr_push_same. unfold slice_last. rewrite Ha.
    rewrite drop_app_le by (rewrite length_app; simpl; lia).
    eexists. rewrite app_comm_cons. reflexivity.
  - intros text. rewrite get_history_map_set, !arr_push_same, Ha.
    by rewrite <- app_assoc.
Qed.

(** ** C5: publishing the assistant reply *)

(** C5 (as stated, refuted): the reply is broadcast with [sender: 'ai'],
    so no emitted event carries [sender: 'assistant']. *)
Lemma C5_sender_counterexample :
  let data := mkSendData (JStr "hi") "u1" "c1" (Some "ann") in
  let '(_, em, _) := send_message empty_state "s1" data "T" (Completed "hello") in
  senders em = ["user"; "ai"] /\ ~ In "assistant" (senders em).
Proof.
  vm_compute. split; [reflexivity|]. intros [H | [H | []]]; discriminate.
Qed.

(** C5 (amended): after a successful provider call the reply is published
    once, with [io.emit] to every connected client, as a [new-message]
    event whose [sender] is ['ai'], carrying the reply text, the timestamp
    and the conversationId; the whole handler emits the user echo and then
    this event. *)
Theorem C5_reply_broadcast_ai :
  (forall (st : state) (p : send_pending) (now text : string),
     (send_finish st p now (Completed text)).2 =
       [Broadcast (NewMessage (JStr text) "ai" None None now
                              (sp_conversationId p))]) /\
  (forall (st : state) (sid : string) (data : send_data) (now text : string),
     let '(_, em, _) := send_message st sid data now (Completed text) in
     em = [Broadcast (NewMessage (sd_message data) "user" (Some (sd_userId data))
                                 (sd_username data) now (sd_conversationId data));
           Broadcast (NewMessage (JStr text) "ai" None None now
                                 (sd_conversationId data))]).
Proof.
  split; [done|].
  intros st sid data now text. unfold send_message, send_begin.
  destruct (get_or_create st _) as [l st1]. done.
Qed.

(** ** C9: concurrent requests on one key *)

Lemma arr_map_set (st : state) (k : string) (l l' : loc) :
  arr (map_set st k l) l' = arr st l'.
Proof. reflexivity. Qed.







(** * Further properties of the code *)

(** ** Event loop: ownership of the history arrays *)

Lemma arr_push_other (st : state) (l l' : loc) (m : message) :
  l' <> l -> arr (push st l m) l' = arr st l'.
Proof. intros H. unfold arr, push; simpl. by rewrite lookup_insert_ne. Qed.

Lemma chat_begin_answered (st st1 : state) (req : chat_request) (r : response) :
  chat_begin st req = (st1, Answered r) -> st1 = st.
Proof.
  unfold chat_begin.
  destruct (negb (truthy (req_message req))); [congruence|].
  destruct (trim_is_empty (req_message req)) as [[|]|]; [congruence| |congruence].
  destruct (get_or_create st _). discriminate.
Qed.

Lemma chat_begin_awaiting (st st1 : state) (req : chat_request)
    (msgs : list message) (p : chat_pending) :
  chat_begin st req = (st1, Awaiting msgs p) ->
  pend_key p = historyKey (req_userId req) (req_conversationId req) /\
  conversationHistory st1 = conversationHistory st /\
  (forall l', l' <> pend_loc p -> arr st1 l' = arr st l') /\
  ((conversationHistory st !! pend_key p = Some (pend_loc p) /\
    next_loc st1 = next_loc st) \/
   (pend_loc p = next_loc st /\ next_loc st1 = S (next_loc st))).
Proof.
  unfold chat_begin.
  destruct (negb (truthy (req_message req))); [congruence|].
  destruct (trim_is_empty (req_message req)) as [[|]|]; [congruence| |congruence].
  unfold get_or_create.
  destruct (conversationHistory st !! _) as [l|] eqn:E; intros H;
    injection H as <- <- <-; simpl.
  - split; [done|]. split; [done|]. split.
    + intros l' Hl'. by apply arr_push_other.
    + left. by split.
  - split; [done|]. split; [done|]. split.
    + intros l' Hl'. rewrite arr_push_other by done.
      unfold arr; simpl. by rewrite lookup_insert_ne.
    + right. by split.
Qed.

Lemma owns_arrive (lp : loop) (st1 : state) (t : nat) (p : chat_pending)
    (sent : list (nat * list message)) (replies : list (nat * response))
    (k : string) (l : loc) :
  conversationHistory st1 = conversationHistory (lp_state lp) ->
  owns (mkLoop st1 (<[t := p]> (lp_pending lp)) sent replies) k l ->
  owns lp k l \/ (k = pend_key p /\ l = pend_loc p).
Proof.
  intros Hc [H | (t' & p' & Ht & Hk & Hl)]; simpl in *.
  - left. left. by rewrite <- Hc.
  - destruct (decide (t' = t)) as [->|Hne].
    + rewrite lookup_insert_eq in Ht. injection Ht as <-. right. by split.
    + rewrite lookup_insert_ne in Ht by done. left. right. eauto.
Qed.

Lemma owns_settle (lp : loop) (st1 : state) (t : nat) (p : chat_pending)
    (sent : list (nat * list message)) (replies : list (nat * response))
    (k : string) (l : loc) :
  lp_pending lp !! t = Some p ->
  (conversationHistory st1 = conversationHistory (lp_state lp) \/
   conversationHistory st1 =
     <[pend_key p := pend_loc p]> (conversationHistory (lp_state lp))) ->
  owns (mkLoop st1 (delete t (lp_pending lp)) sent replies) k l ->
  owns lp k l.
Proof.
  intros Hp Hc [H | (t' & p' & Ht & Hk & Hl)]; simpl in *.
  - destruct Hc as [Hc | Hc]; rewrite Hc in H.
    + by left.
    + destruct (decide (k = pend_key p)) as [->|Hne].
      * rewrite lookup_insert_eq in H. injection H as <-. right. eauto.
      * rewrite lookup_insert_ne in H by done. by left.
  - destruct (decide (t' = t)) as [->|Hne].
    + by rewrite lookup_delete_eq in Ht.
    + rewrite lookup_delete_ne in Ht by done. right. eauto.
Qed.

Lemma chat_finish_store (st st1 : state) (p : chat_pending) (now : string)
    (o : provider_outcome) (r : response) :
  chat_finish st p now o = (st1, r) ->
  next_loc st1 = next_loc st /\
  (conversationHistory st1 = conversationHistory st \/
   conversationHistory st1 = <[pend_key p := pend_loc p]> (conversationHistory st)) /\
  (forall l', l' <> pend_loc p -> arr st1 l' = arr st l').
Proof.
  destruct o as [text|code]; simpl; intros H; injection H as <- <-.
  - split; [done|]. split; [by right|].
    intros l' Hl'. rewrite arr_map_set. by apply arr_push_other.
  - split; [done|]. split; [by left|]. done.
Qed.

Lemma loop_step_wf (now : string) (lp : loop) (a : loop_action) :
  wf_loop lp -> wf_loop (loop_step now lp a).
Proof.
  intros [Hb Hi]. destruct a as [t req | t o]; simpl.
  - destruct (chat_begin (lp_state lp) req) as [st1 [r|msgs p]] eqn:E.
    + apply chat_begin_answered in E. subst st1. by split.
    + destruct (chat_begin_awaiting _ _ _ _ _ E) as (_ & Hc & _ & Hcase).
      split.
      * intros k l H. apply owns_arrive in H; [|done]. simpl.
        destruct Hcase as [[Hm Hn] | [Hl Hn]]; rewrite Hn;
          destruct H as [H | [-> ->]].
        -- eauto.
        -- eapply Hb. left. exact Hm.
        -- apply Hb in H. lia.
        -- lia.
      * intros k1 k2 l H1 H2.
        apply owns_arrive in H1; [|done]. apply owns_arrive in H2; [|done].
        destruct H1 as [H1 | [E1 F1]], H2 as [H2 | [E2 F2]]; subst;
          [eauto | | |done].
        -- destruct Hcase as [[Hm _] | [Hl _]].
           ++ eapply Hi; [exact H1 | left; exact Hm].
           ++ apply Hb in H1. lia.
        -- destruct Hcase as [[Hm _] | [Hl _]].
           ++ eapply Hi; [left; exact Hm | exact H2].
           ++ apply Hb in H2. lia.
  - destruct (lp_pending lp !! t) as [p|] eqn:Ep; [|by split].
    destruct (chat_finish (lp_state lp) p now o) as [st1 r] eqn:Ef.
    destruct (chat_finish_store _ _ _ _ _ _ Ef) as (Hn & Hc & _).
    split.
    + intros k l H. eapply owns_settle in H; [|exact Ep|exact Hc].
      simpl. rewrite Hn. eauto.
    + intros k1 k2 l H1 H2.
      eapply owns_settle in H1; [|exact Ep|exact Hc].
      eapply owns_settle in H2; [|exact Ep|exact Hc]. eauto.
Qed.

Lemma run_loop_wf_from (now : string) (acts : list loop_action) (lp : loop) :
  wf_loop lp -> wf_loop (fold_left (loop_step now) acts lp).
Proof.
  revert lp. induction acts as [|a acts IH]; simpl; [done|].
  intros lp H. apply IH. by apply loop_step_wf.
Qed.

Lemma run_loop_wf (now : string) (acts : list loop_action) :
  wf_loop (run_loop now empty_state acts).
Proof.
  apply run_loop_wf_from. split.
  - intros k l [H | (t & p & H & _)]; simpl in H; by rewrite lookup_empty in H.
  - intros k1 k2 l [H | (t & p & H & _)]; simpl in H; by rewrite lookup_empty in H.
Qed.

Lemma loop_step_isolation (now : string) (lp : loop) (a : loop_action)
    (k : string) :
  wf_loop lp -> action_key lp a <> Some k ->
  get_history (lp_state (loop_step now lp a)) k = get_history (lp_state lp) k.
Proof.
  intros [Hb Hi] Hk. destruct a as [t req | t o]; simpl in *.
  - destruct (chat_begin (lp_state lp) req) as [st1 [r|msgs p]] eqn:E.
    + apply chat_begin_answered in E. by subst st1.
    + destruct (chat_begin_awaiting _ _ _ _ _ E) as (Hpk & Hc & Harr & Hcase).
      simpl. unfold get_history. rewrite Hc.
      destruct (conversationHistory (lp_state lp) !! k) as [l'|] eqn:El; [|done].
      apply Harr. intros ->.
      destruct Hcase as [[Hm _] | [Hl _]].
      * assert (k = pend_key p) as Heq.
        { eapply Hi; left; [exact El | exact Hm]. }
        apply Hk. by rewrite Heq, Hpk.
      * assert (pend_loc p < next_loc (lp_state lp)) by (eapply Hb; left; exact El).
        lia.
  - destruct (lp_pending lp !! t) as [p|] eqn:Ep; [|done].
    destruct (chat_finish (lp_state lp) p now o) as [st1 r] eqn:Ef.
    destruct (chat_finish_store _ _ _ _ _ _ Ef) as (_ & Hc & Harr).
    simpl. assert (k <> pend_key p) as Hne by (intros ->; by apply Hk).
    unfold get_history.
    assert (conversationHistory st1 !! k = conversationHistory (lp_state lp) !! k)
      as ->.
    { destruct Hc as [-> | ->]; [done|]. by rewrite lookup_insert_ne. }
    destruct (conversationHistory (lp_state lp) !! k) as [l'|] eqn:El; [|done].
    apply Harr. intros ->. apply Hne. eapply Hi; [left; exact El|].
    right. eauto.
Qed.

(** ** X1: no two keys share a history array *)

(** X1: in every schedule of [POST /api/chat] requests from an empty store,
    no two different keys of [conversationHistory] hold the same array, and
    the array a suspended request will push its reply onto is not stored
    under any other key. *)
Theorem X1_loop_arrays_unshared (now : string) (acts : list loop_action) :
  let lp := run_loop now empty_state acts in
  (forall k1 k2 l,
     conversationHistory (lp_state lp) !! k1 = Some l ->
     conversationHistory (lp_state lp) !! k2 = Some l -> k1 = k2) /\
  (forall t p k,
     lp_pending lp !! t = Some p ->
     conversationHistory (lp_state lp) !! k = Some (pend_loc p) ->
     k = pend_key p).
Proof.
  destruct (run_loop_wf now acts) as [_ Hi]. split.
  - intros k1 k2 l H1 H2. eapply Hi; left; eauto.
  - intros t p k Ht Hk. eapply Hi; [left; exact Hk | right; eauto].
Qed.

Lemma X1_witness :
  let acts := [Arrive 0 (mkChatRequest (JStr "hi") "c1" "u1");
               Settle 0 (Completed "hello");
               Arrive 1 (mkChatRequest (JStr "yo") "c2" "u1")] in
  let lp := run_loop "T" empty_state acts in
  (conversationHistory (lp_state lp) !! historyKey "u1" "c1" = Some 0 /\
   lp_pending lp !! 1 = Some (mkChatPending (historyKey "u1" "c2") 1 "c2")) /\
  (forall k, conversationHistory (lp_state lp) !! k = Some 0 ->
             k = historyKey "u1" "c1") /\
  (forall k, conversationHistory (lp_state lp) !! k = Some 1 ->
             k = historyKey "u1" "c2").
Proof.
  split; [split; reflexivity|].
  destruct (X1_loop_arrays_unshared "T"
              [Arrive 0 (mkChatRequest (JStr "hi") "c1" "u1");
               Settle 0 (Completed "hello");
               Arrive 1 (mkChatRequest (JStr "yo") "c2" "u1")]) as [H1 H2].
  split.
  - intros k Hk. exact (H1 k (historyKey "u1" "c1") 0 Hk eq_refl).
  - intros k Hk. exact (H2 1 (mkChatPending (historyKey "u1" "c2") 1 "c2") k
                          eq_refl Hk).
Defined.

(** ** X2: requests on one key never change another key's history *)

(** X2: in every schedule of [POST /api/chat] requests from an empty store,
    the next step (a request arriving, or a provider call settling) leaves
    the history read for every other key unchanged. *)
Theorem X2_loop_key_isolation (now : string) (acts : list loop_action)
    (a : loop_action) (k : string) :
  let lp := run_loop now empty_state acts in
  action_key lp a <> Some k ->
  get_history (lp_state (loop_step now lp a)) k = get_history (lp_state lp) k.
Proof.
  intros lp Hk. apply loop_step_isolation; [apply run_loop_wf | exact Hk].
Qed.

Lemma X2_witness :
  let acts := [Arrive 0 (mkChatRequest (JStr "hi") "c1" "u1");
               Settle 0 (Completed "hello");
               Arrive 1 (mkChatRequest (JStr "yo") "c2" "u1")] in
  let lp := run_loop "T" empty_state acts in
  action_key lp (Settle 1 (Completed "ok")) <> Some (historyKey "u1" "c1") /\
  get_history (lp_state (loop_step "T" lp (Settle 1 (Completed "ok"))))
              (historyKey "u1" "c1") =
  get_history (lp_state lp) (historyKey "u1" "c1").
Proof.
  split; [vm_compute; discriminate|].
  apply (X2_loop_key_isolation "T"
           [Arrive 0 (mkChatRequest (JStr "hi") "c1" "u1");
            Settle 0 (Completed "hello");
            Arrive 1 (mkChatRequest (JStr "yo") "c2" "u1")]
           (Settle 1 (Completed "ok")) (historyKey "u1" "c1")).
  vm_compute. discriminate.
Defined.

(** ** X3: the history key is ambiguous *)

Lemma string_append_assoc (a b c : string) :
  String.append a (String.append b c) = String.append (String.append a b) c.
Proof.
  induction a as [|ch a IH]; [reflexivity|].
  exact (f_equal (String ch) IH).
Qed.

(** X3: [`${userId}_${conversationId}`] does not separate its parts: user
    [u] in conversation [x_c] and user [u_x] in conversation [c] share one
    history, so an exchange made by the first is returned by the GET route
    of the second. *)
Theorem X3_historyKey_collision (st : state) (u x c : string) (m : jsval)
    (now text : string) :
  valid_message m ->
  historyKey u (x +:+ "_" +:+ c) = historyKey (u +:+ "_" +:+ x) c /\
  let '(_, st', _) :=
    chat st (mkChatRequest m (x +:+ "_" +:+ c) u) now (Completed text) in
  get_history st' (historyKey (u +:+ "_" +:+ x) c) =
    get_history st (historyKey (u +:+ "_" +:+ x) c) ++
      [mkMessage User m; mkMessage Assistant (JStr text)].
Proof.
  intros Hv.
  assert (historyKey u (x +:+ "_" +:+ c) = historyKey (u +:+ "_" +:+ x) c) as Hk.
  { unfold historyKey. by rewrite !string_append_assoc. }
  split; [exact Hk|].
  pose proof (chat_success_history st (mkChatRequest m (x +:+ "_" +:+ c) u)
                now text Hv) as H. simpl in H.
  destruct (chat _ _ _ _) as [[? st'] r]. rewrite <- Hk. by destruct H.
Qed.

Lemma X3_witness :
  valid_message (JStr "hi") /\
  historyKey "a" ("b" +:+ "_" +:+ "c") = historyKey ("a" +:+ "_" +:+ "b") "c" /\
  let '(_, st', _) :=
    chat empty_state (mkChatRequest (JStr "hi") ("b" +:+ "_" +:+ "c") "a") "T"
         (Completed "hello") in
  get_history st' (historyKey ("a" +:+ "_" +:+ "b") "c") =
    get_history empty_state (historyKey ("a" +:+ "_" +:+ "b") "c") ++
      [mkMessage User (JStr "hi"); mkMessage Assistant (JStr "hello")].
Proof.
  split; [exists "hi"; split; [reflexivity | discriminate]|].
  apply (X3_historyKey_collision empty_state "a" "b" "c" (JStr "hi") "T" "hello").
  exists "hi". split; [reflexivity | discriminate].
Defined.

(** ** X4: message values rejected before any work *)



(** ** X5, X6: the real-time path after the provider call *)

(** X5: when the provider call of ['send-message'] fails, the user echo has
    already been broadcast and the only other emission is an [error] event
    to the originating socket; no assistant turn is stored, the user turn
    stays on a stored history, and a key without stored history still
    reads as empty. *)
Theorem X5_send_failure (st : state) (sid : string) (data : send_data)
    (now : string) (code : option string) :
  let k := historyKey (sd_userId data) (sd_conversationId data) in
  let '(st', em, _) := send_message st sid data now (Failed code) in
  em = [Broadcast (NewMessage (sd_message data) "user" (Some (sd_userId data))
                              (sd_username data) now (sd_conversationId data));
        ToSocket sid (ErrorEvent "Failed to process message")] /\
  get_history st' k =
    match conversationHistory st !! k with
    | Some _ => get_history st k ++ [mkMessage User (sd_message data)]
    | None => []
    end.
Proof.
  simpl. unfold send_message, send_begin, get_or_create.
  destruct (conversationHistory st !! _) as [l|] eqn:E; simpl;
    split; try done; unfold get_history; simpl; rewrite E; [|done].
  apply arr_push_same.
Qed.

(** X6: a successful ['send-message'] stores the user turn and then the
    reply at the end of the key's history, whatever the message value (no
    validation precedes it). *)
Theorem X6_send_success_history (st : state) (sid : string) (data : send_data)
    (now text : string) :
  let k := historyKey (sd_userId data) (sd_conversationId data) in
  let '(st', _, _) := send_message st sid data now (Completed text) in
  get_history st' k =
    get_history st k ++ [mkMessage User (sd_message data);
                         mkMessage Assistant (JStr text)].
Proof.
  simpl. unfold send_message, send_begin.
  pose proof (get_or_create_spec st
    (historyKey (sd_userId data) (sd_conversationId data))) as Hg.
  destruct (get_or_create st _) as [l st1]. simpl.
  destruct Hg as (_ & Ha & _).
  rewrite get_history_map_set, !arr_push_same, Ha. by rewrite <- app_assoc.
Qed.

(** ** X7, X8: the Session Registry and [/api/health] *)

(** X7: the [activeConnections] count reported by [/api/health] grows by one
    when a new socket connects, shrinks by one when a connected socket
    disconnects, and is unchanged by a disconnect of an unknown socket and
    by every [identify] that returns. *)
Theorem X7_health_connection_count :
  (forall (st : state) (sid : string) (t : Z) (now : string) (up : Z),
     activeConnections st !! sid = None ->
     h_activeConnections (health_check (connect st sid t) now up) =
       S (h_activeConnections (health_check st now up))) /\
  (forall (st : state) (sid : string) (c : connection) (now : string) (up : Z),
     activeConnections st !! sid = Some c ->
     S (h_activeConnections (health_check (disconnect st sid) now up)) =
       h_activeConnections (health_check st now up)) /\
  (forall (st : state) (sid : string) (now : string) (up : Z),
     activeConnections st !! sid = None ->
     h_activeConnections (health_check (disconnect st sid) now up) =
       h_activeConnections (health_check st now up)) /\
  (forall (st st' : state) (sid : string) (ud : option identity)
          (now : string) (up : Z),
     identify st sid ud = Ok st' ->
     h_activeConnections (health_check st' now up) =
       h_activeConnections (health_check st now up)).
Proof.
  split; [|split; [|split]].
  - intros st sid t now up H. simpl. by apply map_size_insert_None.
  - intros st sid c now up H. simpl.
    rewrite map_size_delete_Some by eauto.
    assert (size (activeConnections st) <> 0).
    { intros Hz. apply map_size_empty_inv in Hz. rewrite Hz in H.
      by rewrite lookup_empty in H. }
    lia.
  - intros st sid now up H. simpl. by apply map_size_delete_None.
  - intros st st' sid ud now up. unfold identify.
    destruct (activeConnections st !! sid) as [c|] eqn:E.
    + destruct ud as [u|]; [|discriminate]. intros Hok. injection Hok as <-.
      simpl. apply map_size_insert_Some. eauto.
    + intros Hok. by injection Hok as <-.
Qed.

Lemma X7_witness :
  let st := connect empty_state "s1" 0 in
  (activeConnections empty_state !! "s1" = None /\
   h_activeConnections (health_check st "T" 1) =
     S (h_activeConnections (health_check empty_state "T" 1))) /\
  (activeConnections st !! "s1" = Some (mkConnection "s1" 0 None None) /\
   S (h_activeConnections (health_check (disconnect st "s1") "T" 1)) =
     h_activeConnections (health_check st "T" 1)) /\
  (activeConnections st !! "s2" = None /\
   h_activeConnections (health_check (disconnect st "s2") "T" 1) =
     h_activeConnections (health_check st "T" 1)) /\
  (identify st "s1" (Some (mkIdentity (Some "u1") None)) =
     Ok (set_connections st (<[ "s1" := mkConnection "s1" 0 (Some "u1") None ]>
                               (activeConnections st))) /\
   h_activeConnections (health_check (set_connections st
       (<[ "s1" := mkConnection "s1" 0 (Some "u1") None ]> (activeConnections st)))
       "T" 1) =
     h_activeConnections (health_check st "T" 1)).
Proof.
  destruct X7_health_connection_count as (Ha & Hb & Hc & Hd).
  split; [|split; [|split]]; (split; [reflexivity|]).
  - apply Ha. reflexivity.
  - apply (Hb _ "s1" (mkConnection "s1" 0 None None)). reflexivity.
  - apply Hc. reflexivity.
  - apply (Hd _ _ "s1" (Some (mkIdentity (Some "u1") None))). reflexivity.
Defined.

(** X8: a socket that connects and then disconnects leaves the registry as
    it was before it connected, and a second [disconnect] changes nothing. *)
Theorem X8_connect_disconnect_roundtrip (st : state) (sid : string) (t : Z) :
  activeConnections st !! sid = None ->
  disconnect (connect st sid t) sid = st /\
  disconnect (disconnect (connect st sid t) sid) sid = st.
Proof.
  intros H. destruct st as [ch hp nl ac]. simpl in H.
  assert (disconnect (connect (mkState ch hp nl ac) sid t) sid =
          mkState ch hp nl ac) as E.
  { unfold disconnect, connect, set_connections. simpl.
    by rewrite delete_insert_id. }
  split; [exact E|]. rewrite E. unfold disconnect, set_connections. simpl.
  by rewrite delete_id.
Qed.

Lemma X8_witness :
  let st := connect empty_state "s1" 0 in
  activeConnections st !! "s2" = None /\
  disconnect (connect st "s2" 5) "s2" = st /\
  disconnect (disconnect (connect st "s2" 5) "s2") "s2" = st.
Proof.
  split; [reflexivity|].
  apply (X8_connect_disconnect_roundtrip (connect empty_state "s1" 0) "s2" 5).
  reflexivity.
Defined.

(** ** X9 - X11: [src/api/chat.js] *)







(** ** X12: the React [App] *)


